(** * Ramsey phase estimation: the notebook's arithmetic, verified

    Embedding of the post-processing cells of
    [Modules/Applications/Quantum Sensing/RamseyInterferometry.ipynb]:

    - the tally cell: [probability0], [probability1] computed from the
      [counts] mapping returned by the simulator and from [shots];
    - the inversion cell: [phase = math.acos((probability1*2-1)*-1)] and
      [phaseError = abs(phase - phaseAmount)];
    - the closed form [P[|1>] = |sin(theta/2)|^2] of the markdown cell.

    Python floats are read as real numbers: every arithmetic operation is
    the exact one on [R], and [math.acos] is the principal arccosine on
    [[-1, 1]] that raises [ValueError] outside of it.  Integers are [Z];
    the [counts] dictionary is a finite map from outcome strings to [Z].

    The real reading leaves out what binary64 adds: rounding, overflow
    ([OverflowError] on a quotient beyond the float range) and NaN.  It
    is exact on the values up to rounding; which tallies make
    [math.acos] raise can differ once an integer exceeds [2^53], so the
    statement that [ValueError] is raised exactly on the malformed
    tallies is made for integers below that magnitude.

    The expressions of the cells are given first as functions into a
    [result] type that records the exception raised, then the cells
    themselves as programs over the notebook's global namespace. *)

From Stdlib Require Import Reals Lra Lia ZArith.
From stdpp Require Import base strings gmap.

Local Open Scope R_scope.

(** ** Python runtime pieces used by the cells *)

Module Py.

(** The built-in exceptions the cells can raise. *)
Inductive exn : Set :=
| ZeroDivisionError
| ValueError
| KeyError
| NameError
| TypeError.

Inductive result (A : Type) : Type :=
| Ok (a : A)
| Raise (e : exn).
Arguments Ok {A} a.
Arguments Raise {A} e.

Definition bind {A B : Type} (m : result A) (k : A -> result B) : result B :=
  match m with
  | Ok a => k a
  | Raise e => Raise e
  end.


(** [a / b] on Python numbers: true division, [ZeroDivisionError] on a
    zero divisor. *)
Definition truediv (a b : R) : result R :=
  if Req_dec_T b 0 then Raise ZeroDivisionError else Ok (a / b).

(** [key in d] and [d[key]] on a dictionary. *)
Definition contains (d : gmap string Z) (key : string) : bool :=
  bool_decide (is_Some (d !! key)).

Definition getitem (d : gmap string Z) (key : string) : result Z :=
  match d !! key with
  | Some v => Ok v
  | None => Raise KeyError
  end.

(** [math.acos]: "math domain error" outside [[-1, 1]]. *)
Definition math_acos (x : R) : result R :=
  if Rlt_dec x (-1) then Raise ValueError
  else if Rlt_dec 1 x then Raise ValueError
  else Ok (acos x).

(** [abs] on a float. *)
Definition abs (x : R) : R := Rabs x.

(** [round(x)] with one argument, the built-in that the round-trip
    property applies to [p * N]: the nearest integer, ties to the even
    one. *)
Definition round (x : R) : Z :=
  let f := Int_part x in
  let r := frac_part x in
  if Rlt_dec r (1 / 2) then f
  else if Rlt_dec (1 / 2) r then (f + 1)%Z
  else if Z.even f then f else (f + 1)%Z.

End Py.

Import Py.

Notation "'let!' x ':=' m 'in' k" := (Py.bind m (fun x => k))
  (at level 10, x name, m at level 100, k at level 200).

(** ** The tally cell (notebook lines 351-369 and 152-170) *)

(** [0 if key not in counts else counts[key]/shots] *)
Definition probability (key : string) (counts : gmap string Z) (shots : R)
  : result R :=
  if negb (contains counts key) then Ok 0
  else let! c := getitem counts key in truediv (IZR c) shots.

Definition probability0 := probability "0".
Definition probability1 := probability "1".

(** ** The inversion cell (notebook lines 409-418) *)

(** [phase = math.acos((probability1*2-1)*-1)] *)
Definition phase (probability1 : R) : result R :=
  math_acos ((probability1 * 2 - 1) * -1).

(** [phaseError = abs(phase - phaseAmount)] *)
Definition phaseError (phase phaseAmount : R) : R :=
  Py.abs (phase - phaseAmount).

(** ** The estimator's contract names

    [estimatePhase countOne shots] is the inversion cell run on the
    probability [countOne/shots] of the tally cell; [estimationError] is
    the error line of the inversion cell. *)

Definition estimatePhase (countOne shots : Z) : result R :=
  let! p := truediv (IZR countOne) (IZR shots) in phase p.

Definition estimationError (estimated actual : R) : R :=
  phaseError estimated actual.

(** The phase read off a [counts] mapping, as the two cells compute it in
    sequence. *)
Definition phase_of_counts (counts : gmap string Z) (shots : Z) : result R :=
  let! p := probability1 counts (IZR shots) in phase p.

(** ** The closed-form model (markdown cell, notebook lines 327-336)

    [P[|1>] = |sin(theta/2)|^2], which the notebook rewrites to
    [(1 - cos theta)/2]. *)
Definition predictedProbabilityOfOne (theta : R) : R :=
  (Rabs (sin (theta / 2))) ^ 2.

(** ** The cells as programs over the notebook's global namespace

    A cell reads and assigns global variables; an exception aborts the
    cell and leaves the assignments made so far in place. *)

Module Notebook.

Inductive value : Type :=
| Num (r : R)
| Dict (d : gmap string Z).

Abbreviation globals := (gmap string value).

(** A cell step: the outcome together with the namespace it leaves. *)
Definition cell (A : Type) : Type := globals -> result A * globals.

Definition lift {A : Type} (m : result A) : cell A := fun g => (m, g).

Definition seq {A B : Type} (m : cell A) (k : A -> cell B) : cell B :=
  fun g =>
    match m g with
    | (Ok a, g') => k a g'
    | (Raise e, g') => (Raise e, g')
    end.

Definition assign (x : string) (v : value) : cell unit :=
  fun g => (Ok tt, <[x := v]> g).

Definition load (x : string) : cell value :=
  fun g =>
    match g !! x with
    | Some v => (Ok v, g)
    | None => (Raise NameError, g)
    end.

Definition as_num (v : value) : result R :=
  match v with
  | Num r => Ok r
  | Dict _ => Raise TypeError
  end.

Definition as_dict (v : value) : result (gmap string Z) :=
  match v with
  | Dict d => Ok d
  | Num _ => Raise TypeError
  end.

Definition load_num (x : string) : cell R :=
  seq (load x) (fun v => lift (as_num v)).

Definition load_dict (x : string) : cell (gmap string Z) :=
  seq (load x) (fun v => lift (as_dict v)).

End Notebook.

Import Notebook.

Abbreviation globals := (gmap string value).

Notation "'let*' x ':=' m 'in' k" := (Notebook.seq m (fun x => k))
  (at level 10, x name, m at level 100, k at level 200).
Notation "m ';;' k" := (Notebook.seq m (fun _ => k))
  (at level 100, k at level 200, right associativity).

(** The tally cell.  [n] is the literal assigned to [shots] (1000 in the
    notebook) and [returned] what [result.get_counts()] gave back.  The
    statements that obtain the simulator and run the job (they assign
    [simulator], [compiled_circuit], [job] and [result], and may raise
    on their own) and the [print] lines are left out: the cell is read
    from the point where the simulator has delivered its counts. *)
Definition tally_cell (n : Z) (returned : gmap string Z) : cell unit :=
  assign "shots" (Num (IZR n)) ;;
  assign "counts" (Dict returned) ;;
  let* counts := load_dict "counts" in
  let* shots := load_num "shots" in
  let* p0 := lift (probability0 counts shots) in
  assign "probability0" (Num p0) ;;
  let* counts := load_dict "counts" in
  let* shots := load_num "shots" in
  let* p1 := lift (probability1 counts shots) in
  assign "probability1" (Num p1).

(** The inversion cell. *)
Definition inversion_cell : cell unit :=
  let* probability1 := load_num "probability1" in
  let* ph := lift (phase probability1) in
  assign "phase" (Num ph) ;;
  let* ph := load_num "phase" in
  let* phaseAmount := load_num "phaseAmount" in
  assign "phaseError" (Num (phaseError ph phaseAmount)).

(** The phase-shift cell (notebook lines 248-250) assigns the true phase;
    the gate it appends to the circuit is the simulator's business. *)
Definition phase_shift_cell (theta : R) : cell unit :=
  assign "phaseAmount" (Num theta).

(** One estimation run: the three cells in notebook order. *)
Definition estimation_run (theta : R) (n : Z) (returned : gmap string Z)
  : cell unit :=
  phase_shift_cell theta ;; tally_cell n returned ;; inversion_cell.

(** ** Vocabulary of the estimator's contract *)




(** The absolute difference of two reals, written by cases. *)
Definition abs_difference (x y : R) : R :=
  if Rle_dec y x then x - y else y - x.

(** What the inversion cell does, read off its definition: the outcome and
    final namespace as a function of the two variables it reads. *)
Definition inversion_outcome (g : globals) : result unit * globals :=
  match g !! "probability1" with
  | None => (Raise NameError, g)
  | Some (Dict _) => (Raise TypeError, g)
  | Some (Num p) =>
      match phase p with
      | Raise e => (Raise e, g)
      | Ok ph =>
          let g1 := <["phase" := Num ph]> g in
          match g !! "phaseAmount" with
          | None => (Raise NameError, g1)
          | Some (Dict _) => (Raise TypeError, g1)
          | Some (Num a) =>
              (Ok tt, <["phaseError" := Num (phaseError ph a)]> g1)
          end
      end
  end.

(** Two namespaces for the worked example ([probability1 = 0.509], true
    phase [PI / 2]); the second also holds results of an earlier run. *)
Definition fresh_namespace : globals :=
  <["probability1" := Num (509 / 1000)]> (<["phaseAmount" := Num (PI / 2)]> ∅).

Definition used_namespace : globals :=
  <["phase" := Num 3]> (<["phaseError" := Num 1]>
    (<["shots" := Num 1000]> fresh_namespace)).

(** ** Further vocabulary for the tally and the model *)

(** The number of times an outcome was seen: a key the simulator left out
    stands for a count of zero. *)
Definition outcome_count (counts : gmap string Z) (key : string) : Z :=
  default 0%Z (counts !! key).

(** [P[|0>] = |cos(theta/2)|^2] (markdown cell, notebook lines 327-331). *)
Definition predictedProbabilityOfZero (theta : R) : R :=
  (Rabs (cos (theta / 2))) ^ 2.

(** Complex numbers as pairs (real part, imaginary part), with Euler's
    formula [e^(i theta) = cos theta + i sin theta] and the squared
    modulus (markdown cell, notebook lines 300-312). *)
Definition complex : Type := R * R.

Definition expi (theta : R) : complex := (cos theta, sin theta).

Definition modulus_sqr (z : complex) : R := fst z ^ 2 + snd z ^ 2.

(** The amplitudes of [|0>] and [|1>] after the second Hadamard gate:
    [(1 + e^(i theta))/2] and [(1 - e^(i theta))/2] (notebook line 264). *)
Definition amplitude0 (theta : R) : complex :=
  ((1 + fst (expi theta)) / 2, snd (expi theta) / 2).

Definition amplitude1 (theta : R) : complex :=
  ((1 - fst (expi theta)) / 2, - snd (expi theta) / 2).

(** ** The Grover operator builder
    ([Modules/Algorithms/Grover/grover_operator_implementation.ipynb])

    [custom_grover_operator] fills a circuit by calling builder methods
    in sequence.  The circuit is the list of these calls, each with the
    qubit arguments it receives; what a gate does to a state, and
    whether the library accepts a call, is the library's business.  The
    list is what the function does when no call is refused, which needs
    [num_qubits >= 1]. *)

Module Grover.

(** [range(n)]: the indices [0, ..., n - 1], empty for [n <= 0]. *)
Definition range (n : Z) : list Z := seqZ 0 n.

(** The qubit argument of [h] and [x]: one index or a sequence. *)
Inductive qubits : Type :=
| One (q : Z)
| Each (qs : list Z).

Inductive call (I : Type) : Type :=
| Append (instruction : I) (qargs : list Z)
| H (on : qubits)
| X (on : qubits)
| MCX (controls : list Z) (target : Z).
Arguments Append {I} instruction qargs.
Arguments H {I} on.
Arguments X {I} on.
Arguments MCX {I} controls target.

(** [oracle] stands for [oracle.to_instruction()]. *)
Definition custom_grover_operator {I : Type} (oracle : I) (num_qubits : Z)
  : list (call I) :=
  [ Append oracle (range num_qubits);
    H (Each (range num_qubits));
    X (Each (range num_qubits));
    H (One (num_qubits - 1));
    MCX (range (num_qubits - 1)) (num_qubits - 1);
    H (One (num_qubits - 1));
    X (Each (range num_qubits));
    H (Each (range num_qubits)) ].

(** The qubit indices a call refers to. *)
Definition indices_of (on : qubits) : list Z :=
  match on with
  | One q => [q]
  | Each qs => qs
  end.

Definition call_indices {I : Type} (c : call I) : list Z :=
  match c with
  | Append _ qargs => qargs
  | H on => indices_of on
  | X on => indices_of on
  | MCX controls target => controls ++ [target]
  end.

(** The indices of a circuit of [n] qubits. *)
Definition valid_index (n q : Z) : Prop := (0 <= q < n)%Z.

End Grover.

(** ** Basic facts about the runtime pieces *)



Lemma truediv_nonzero (a b : R) : b <> 0 -> truediv a b = Ok (a / b).
Proof. intros Hb. unfold truediv. destruct (Req_dec_T b 0); [contradiction | reflexivity]. Qed.

Lemma truediv_zero (a : R) : truediv a 0 = Raise ZeroDivisionError.
Proof. unfold truediv. destruct (Req_dec_T 0 0); [reflexivity | contradiction]. Qed.

Lemma math_acos_in (x : R) : -1 <= x <= 1 -> math_acos x = Ok (acos x).
Proof.
  intros [Hlo Hhi]. unfold math_acos.
  destruct (Rlt_dec x (-1)); [lra |].
  destruct (Rlt_dec 1 x); [lra | reflexivity].
Qed.

Lemma math_acos_out (x : R) : x < -1 \/ 1 < x -> math_acos x = Raise ValueError.
Proof.
  intros Hx. unfold math_acos.
  destruct (Rlt_dec x (-1)); [reflexivity |].
  destruct (Rlt_dec 1 x); [reflexivity | lra].
Qed.


(** The inversion cell on a probability: it succeeds exactly on [[0, 1]]. *)
Lemma phase_in (p : R) : 0 <= p <= 1 -> phase p = Ok (acos (1 - 2 * p)).
Proof.
  intros Hp. unfold phase. rewrite math_acos_in by lra.
  f_equal. f_equal. lra.
Qed.

Lemma phase_out (p : R) : p < 0 \/ 1 < p -> phase p = Raise ValueError.
Proof. intros Hp. unfold phase. apply math_acos_out. lra. Qed.

Lemma phase_Ok_inv (p v : R) : phase p = Ok v -> 0 <= p <= 1 /\ v = acos (1 - 2 * p).
Proof.
  intros Hv.
  destruct (Rlt_dec p 0) as [Hlo | Hlo].
  { rewrite phase_out in Hv by now left. discriminate. }
  destruct (Rlt_dec 1 p) as [Hhi | Hhi].
  { rewrite phase_out in Hv by now right. discriminate. }
  assert (Hp : 0 <= p <= 1) by lra.
  rewrite (phase_in p Hp) in Hv. injection Hv as <-. now split.
Qed.

Lemma estimatePhase_nonzero (countOne shots : Z) :
  shots <> 0%Z ->
  estimatePhase countOne shots = phase (IZR countOne / IZR shots).
Proof.
  intros Hs. unfold estimatePhase.
  rewrite truediv_nonzero; [reflexivity |].
  intros H0. apply eq_IZR_R0 in H0. contradiction.
Qed.

Lemma estimatePhase_zero_shots (countOne : Z) :
  estimatePhase countOne 0 = Raise ZeroDivisionError.
Proof. unfold estimatePhase. now rewrite truediv_zero. Qed.

(** Position of the ratio [countOne/shots] relative to [[0, 1]], read on
    the integers. *)
Lemma ratio_pos_shots (c s : Z) :
  (0 < s)%Z ->
  (IZR c / IZR s < 0 <-> (c < 0)%Z) /\ (1 < IZR c / IZR s <-> (s < c)%Z).
Proof.
  intros Hs. apply IZR_lt in Hs.
  assert (Hq : IZR c = IZR c / IZR s * IZR s) by (field; lra).
  split; split; intros H.
  - apply lt_IZR. nra.
  - apply IZR_lt in H. nra.
  - apply lt_IZR. nra.
  - apply IZR_lt in H. nra.
Qed.



(** ** The phase estimate on a well-formed tally *)

Lemma probability_absent (key : string) (counts : gmap string Z) (shots : R) :
  counts !! key = None -> probability key counts shots = Ok 0.
Proof.
  intros Hk. unfold probability, contains.
  rewrite bool_decide_eq_false_2; [reflexivity |].
  rewrite Hk. intros [v Hv]. discriminate Hv.
Qed.

Lemma probability_present (key : string) (counts : gmap string Z) (shots : R)
    (c : Z) :
  counts !! key = Some c ->
  probability key counts shots = truediv (IZR c) shots.
Proof.
  intros Hk. unfold probability, contains, getitem.
  rewrite bool_decide_eq_true_2 by (rewrite Hk; eauto).
  simpl. rewrite Hk. reflexivity.
Qed.

Lemma ratio_in_unit (countOne shots : Z) :
  (1 <= shots)%Z -> (0 <= countOne)%Z -> (countOne <= shots)%Z ->
  0 <= IZR countOne / IZR shots <= 1.
Proof.
  intros Hs H0 Hle.
  destruct (ratio_pos_shots countOne shots ltac:(lia)) as [[Hn _] [Hg _]].
  split.
  - destruct (Rle_dec 0 (IZR countOne / IZR shots)) as [|Hc]; [assumption |].
    apply Rnot_le_lt in Hc. apply Hn in Hc. lia.
  - destruct (Rle_dec (IZR countOne / IZR shots) 1) as [|Hc]; [assumption |].
    apply Rnot_le_lt in Hc. apply Hg in Hc. lia.
Qed.

(** The phase read off a [counts] mapping that holds the key ['1'] is the
    estimate for that count. *)
Lemma phase_of_counts_present (counts : gmap string Z) (shots c : Z) :
  counts !! "1" = Some c -> phase_of_counts counts shots = estimatePhase c shots.
Proof.
  intros Hc. unfold phase_of_counts, probability1, estimatePhase.
  now rewrite (probability_present _ _ _ _ Hc).
Qed.

(** C1. For every tally with [shots >= 1] and [0 <= countOne <= shots],
    [estimatePhase countOne shots] returns
    [arccos (1 - 2 * (countOne / shots))]; the value is the principal one
    (its cosine is the argument) and lies in [[0, PI]]. *)
Theorem estimatePhase_principal_value (countOne shots : Z) :
  (1 <= shots)%Z -> (0 <= countOne)%Z -> (countOne <= shots)%Z ->
  exists v : R,
    estimatePhase countOne shots = Ok v
    /\ v = acos (1 - 2 * (IZR countOne / IZR shots))
    /\ cos v = 1 - 2 * (IZR countOne / IZR shots)
    /\ 0 <= v <= PI.
Proof.
  intros Hs H0 Hle.
  pose proof (ratio_in_unit countOne shots Hs H0 Hle) as Hp.
  exists (acos (1 - 2 * (IZR countOne / IZR shots))).
  split; [| split; [reflexivity | split]].
  - rewrite estimatePhase_nonzero by lia. now apply phase_in.
  - apply cos_acos. lra.
  - apply acos_bound.
Qed.

Lemma estimatePhase_principal_value_witness :
  exists v : R,
    estimatePhase 509 1000 = Ok v
    /\ v = acos (1 - 2 * (IZR 509 / IZR 1000))
    /\ cos v = 1 - 2 * (IZR 509 / IZR 1000)
    /\ 0 <= v <= PI.
Proof. apply (estimatePhase_principal_value 509 1000); lia. Defined.

(** ** Rejected tallies *)






(** ** Boundary tallies *)

Lemma acos_minus_1 : acos (-1) = PI.
Proof. replace (-1) with (- (1)) by ring. rewrite acos_opp, acos_1. lra. Qed.

(** C6. [estimatePhase 0 1000] is exactly [0] and
    [estimatePhase 1000 1000] is [PI]. *)
Theorem estimatePhase_boundary :
  estimatePhase 0 1000 = Ok 0 /\ estimatePhase 1000 1000 = Ok PI.
Proof.
  split.
  - rewrite estimatePhase_nonzero by lia. rewrite phase_in by lra.
    f_equal. replace (1 - 2 * (0 / 1000)) with 1 by lra. apply acos_1.
  - rewrite estimatePhase_nonzero by lia. rewrite phase_in by lra.
    f_equal. replace (1 - 2 * (1000 / 1000)) with (-1) by lra. apply acos_minus_1.
Qed.

(** ** The error line *)

Lemma Rabs_abs_difference (x y : R) : Rabs (x - y) = abs_difference x y.
Proof.
  unfold abs_difference. destruct (Rle_dec y x) as [Hle | Hgt].
  - apply Rabs_pos_eq. lra.
  - rewrite Rabs_left by lra. lra.
Qed.

(** C8. For every pair of reals, [estimationError estimated actual] is the
    absolute difference [|estimated - actual|]: it is [estimated - actual]
    or [actual - estimated], whichever is non-negative.  The function is
    total: it returns a number, never an exception. *)
Theorem estimationError_abs_difference (estimated actual : R) :
  estimationError estimated actual = Rabs (estimated - actual)
  /\ estimationError estimated actual = abs_difference estimated actual
  /\ 0 <= estimationError estimated actual
  /\ estimationError estimated actual = estimationError actual estimated.
Proof.
  unfold estimationError, phaseError, Py.abs.
  split; [reflexivity |].
  split; [apply Rabs_abs_difference |].
  split; [apply Rabs_pos |].
  apply Rabs_minus_sym.
Qed.

(** ** The closed-form probability model *)

Lemma predictedProbabilityOfOne_sin_sqr (theta : R) :
  predictedProbabilityOfOne theta = (sin (theta / 2))².
Proof.
  unfold predictedProbabilityOfOne. rewrite pow2_abs. unfold Rsqr. ring.
Qed.

Lemma predictedProbabilityOfOne_cos (theta : R) :
  predictedProbabilityOfOne theta = (1 - cos theta) / 2.
Proof.
  rewrite predictedProbabilityOfOne_sin_sqr.
  replace theta with (2 * (theta / 2)) at 2 by field.
  rewrite cos_2a_sin. unfold Rsqr. field.
Qed.

(** C3. [predictedProbabilityOfOne] is defined on every real [theta]
    (no restriction to [[0, 2 PI)]), equals [(1 - cos theta) / 2], and its
    value lies in [[0, 1]]. *)
Theorem predictedProbabilityOfOne_closed_form (theta : R) :
  predictedProbabilityOfOne theta = (1 - cos theta) / 2
  /\ 0 <= predictedProbabilityOfOne theta <= 1.
Proof.
  split; [apply predictedProbabilityOfOne_cos |].
  rewrite predictedProbabilityOfOne_cos.
  pose proof (COS_bound theta) as [Hlo Hhi]. lra.
Qed.

(** C4. [predictedProbabilityOfOne theta] equals
    [predictedProbabilityOfOne (2 * PI - theta)] for every [theta], and
    the boundary values are [0] at [0] and [1] at [PI] (exactly, hence
    within any tolerance). *)
Theorem predictedProbabilityOfOne_symmetry :
  (forall theta : R,
      predictedProbabilityOfOne theta
      = predictedProbabilityOfOne (2 * PI - theta))
  /\ predictedProbabilityOfOne 0 = 0
  /\ predictedProbabilityOfOne PI = 1
  /\ Rabs (predictedProbabilityOfOne 0 - 0) <= 1 / 10 ^ 9
  /\ Rabs (predictedProbabilityOfOne PI - 1) <= 1 / 10 ^ 9.
Proof.
  assert (H0 : predictedProbabilityOfOne 0 = 0).
  { rewrite predictedProbabilityOfOne_cos, cos_0. lra. }
  assert (HPI : predictedProbabilityOfOne PI = 1).
  { rewrite predictedProbabilityOfOne_cos, cos_PI. lra. }
  split.
  { intros theta. rewrite !predictedProbabilityOfOne_cos.
    replace (2 * PI - theta) with (- theta + 2 * INR 1 * PI) by (simpl; ring).
    rewrite cos_period, cos_neg. reflexivity. }
  split; [exact H0 |]. split; [exact HPI |].
  rewrite H0, HPI. replace (0 - 0) with 0 by ring. replace (1 - 1) with 0 by ring.
  rewrite Rabs_R0.
  assert (0 < 1 / 10 ^ 9) by (apply Rdiv_lt_0_compat; [lra | apply pow_lt; lra]).
  lra.
Qed.

(** ** Missing outcome keys *)

Lemma probability_no_KeyError (key : string) (counts : gmap string Z)
    (shots : R) :
  probability key counts shots <> Raise KeyError.
Proof.
  destruct (counts !! key) as [c |] eqn:Hk.
  - rewrite (probability_present _ _ _ _ Hk). unfold truediv.
    destruct (Req_dec_T shots 0); discriminate.
  - rewrite (probability_absent _ _ _ Hk). discriminate.
Qed.

Lemma phase_zero : phase 0 = Ok 0.
Proof.
  rewrite phase_in by lra. f_equal.
  replace (1 - 2 * 0) with 1 by ring. apply acos_1.
Qed.

(** ** The cells on the global namespace *)

Lemma inversion_cell_outcome (g : globals) :
  inversion_cell g = inversion_outcome g.
Proof.
  unfold inversion_cell, inversion_outcome.
  unfold load_num, seq, load, lift, assign, as_num.
  destruct (g !! "probability1") as [[p | d] |]; try reflexivity.
  destruct (phase p) as [ph | e]; try reflexivity.
  rewrite lookup_insert_eq. rewrite lookup_insert_ne by done.
  destruct (g !! "phaseAmount") as [[a | d] |]; reflexivity.
Qed.

Lemma tally_cell_outcome (n : Z) (returned : gmap string Z) (g : globals) :
  let g1 := <["counts" := Dict returned]> (<["shots" := Num (IZR n)]> g) in
  tally_cell n returned g =
    match probability0 returned (IZR n) with
    | Raise e => (Raise e, g1)
    | Ok p0 =>
        let g2 := <["probability0" := Num p0]> g1 in
        match probability1 returned (IZR n) with
        | Raise e => (Raise e, g2)
        | Ok p1 => (Ok tt, <["probability1" := Num p1]> g2)
        end
    end.
Proof.
  unfold tally_cell.
  unfold load_num, load_dict, seq, load, lift, assign, as_num, as_dict.
  cbv zeta.
  rewrite lookup_insert_eq. rewrite lookup_insert_ne by done.
  rewrite lookup_insert_eq.
  destruct (probability0 returned (IZR n)) as [p0 | e]; [| reflexivity].
  rewrite lookup_insert_ne by done. rewrite lookup_insert_eq.
  rewrite lookup_insert_ne by done. rewrite lookup_insert_ne by done.
  rewrite lookup_insert_eq.
  destruct (probability1 returned (IZR n)) as [p1 | e]; reflexivity.
Qed.

Lemma estimation_run_outcome (theta : R) (n : Z) (returned : gmap string Z)
    (g : globals) :
  estimation_run theta n returned g =
    match tally_cell n returned (<["phaseAmount" := Num theta]> g) with
    | (Ok _, g') => inversion_cell g'
    | (Raise e, g') => (Raise e, g')
    end.
Proof. reflexivity. Qed.

Lemma estimation_run_no_ones (theta : R) (n : Z) (returned : gmap string Z)
    (g : globals) :
  returned !! "1" = None ->
  returned !! "0" = None \/ n <> 0%Z ->
  fst (estimation_run theta n returned g) = Ok tt
  /\ snd (estimation_run theta n returned g) !! "probability1" = Some (Num 0)
  /\ snd (estimation_run theta n returned g) !! "phase" = Some (Num 0).
Proof.
  intros H1 H0.
  rewrite estimation_run_outcome, tally_cell_outcome. cbv zeta.
  assert (Hp0 : exists p0, probability0 returned (IZR n) = Ok p0).
  { unfold probability0. destruct (returned !! "0") as [c |] eqn:Hc.
    - rewrite (probability_present _ _ _ _ Hc).
      destruct H0 as [H0 | H0]; [discriminate |].
      rewrite truediv_nonzero; [eauto |].
      intros Hz. apply eq_IZR_R0 in Hz. contradiction.
    - rewrite (probability_absent _ _ _ Hc). eauto. }
  destruct Hp0 as [p0 ->].
  unfold probability1. rewrite (probability_absent _ _ _ H1).
  rewrite inversion_cell_outcome. unfold inversion_outcome.
  rewrite lookup_insert_eq. rewrite phase_zero.
  repeat (rewrite lookup_insert_ne by done). rewrite lookup_insert_eq.
  cbn [fst snd].
  split; [reflexivity |]. split.
  - rewrite lookup_insert_ne by done. rewrite lookup_insert_ne by done.
    apply lookup_insert_eq.
  - rewrite lookup_insert_ne by done. apply lookup_insert_eq.
Qed.

(** C10. When an outcome key (['0'] or ['1']) is absent from [counts], its
    probability is [0] and no [KeyError] is raised; a run whose counts
    hold no ['1'] outcome has empirical probability [0] and estimated
    phase [0]. *)
Theorem absent_outcome_counts_as_zero (counts : gmap string Z) (n : Z) :
  (counts !! "0" = None -> probability0 counts (IZR n) = Ok 0)
  /\ (counts !! "1" = None ->
      probability1 counts (IZR n) = Ok 0 /\ phase_of_counts counts n = Ok 0)
  /\ probability0 counts (IZR n) <> Raise KeyError
  /\ probability1 counts (IZR n) <> Raise KeyError
  /\ (counts !! "1" = None -> counts !! "0" = None \/ n <> 0%Z ->
      forall (theta : R) (g : globals),
        fst (estimation_run theta n counts g) = Ok tt
        /\ snd (estimation_run theta n counts g) !! "probability1"
           = Some (Num 0)
        /\ snd (estimation_run theta n counts g) !! "phase" = Some (Num 0)).
Proof.
  split; [apply probability_absent |].
  split.
  { intros H1. unfold phase_of_counts, probability1.
    rewrite (probability_absent _ _ _ H1). split; [reflexivity |].
    apply phase_zero. }
  split; [apply probability_no_KeyError |].
  split; [apply probability_no_KeyError |].
  intros H1 H0 theta g. now apply estimation_run_no_ones.
Qed.

Lemma absent_outcome_counts_as_zero_witness :
  probability1 {["0" := 1000%Z]} (IZR 1000) = Ok 0
  /\ phase_of_counts {["0" := 1000%Z]} 1000 = Ok 0.
Proof.
  apply (proj1 (proj2 (absent_outcome_counts_as_zero {["0" := 1000%Z]} 1000))).
  reflexivity.
Defined.

(** ** Statelessness of the inversion cell *)

Lemma inversion_outcome_frame (g : globals) (x : string) :
  x <> "phase" -> x <> "phaseError" ->
  snd (inversion_outcome g) !! x = g !! x.
Proof.
  intros Hph Hpe. unfold inversion_outcome.
  destruct (g !! "probability1") as [[p | d] |]; try reflexivity.
  destruct (phase p) as [ph | e]; try reflexivity.
  cbv zeta.
  destruct (g !! "phaseAmount") as [[a | d] |]; cbn [snd];
    repeat (rewrite lookup_insert_ne by congruence); reflexivity.
Qed.

Lemma inversion_outcome_idempotent (g : globals) :
  fst (inversion_outcome g) = Ok tt ->
  inversion_outcome (snd (inversion_outcome g)) = inversion_outcome g.
Proof.
  unfold inversion_outcome at 1 3 4.
  destruct (g !! "probability1") as [[p | d] |] eqn:Hp; try discriminate.
  destruct (phase p) as [ph | e] eqn:Hph; try discriminate.
  cbv zeta.
  destruct (g !! "phaseAmount") as [[a | d] |] eqn:Ha; try discriminate.
  intros _. cbn [snd]. unfold inversion_outcome.
  repeat (rewrite lookup_insert_ne by done). rewrite Hp, Hph. cbv zeta.
  repeat (rewrite lookup_insert_ne by done). rewrite Ha.
  f_equal. apply map_eq. intros x.
  destruct (decide (x = "phaseError")) as [-> | Hpe].
  { now rewrite !lookup_insert_eq. }
  rewrite !(lookup_insert_ne _ "phaseError") by congruence.
  destruct (decide (x = "phase")) as [-> | Hx].
  { now rewrite !lookup_insert_eq. }
  repeat (rewrite lookup_insert_ne by congruence). reflexivity.
Qed.

(** C9. The estimator keeps no state between calls.  Two executions of
    the inversion cell from namespaces that agree on its inputs
    ([probability1] and [phaseAmount]) end with the same outcome and, when
    they succeed, the same [phase] and [phaseError], whatever else earlier
    cells left behind; the cell touches no variable besides these two
    outputs; and running it again changes nothing.  [estimatePhase] and
    [estimationError] themselves are functions of their arguments only. *)
Theorem inversion_cell_stateless (g1 g2 : globals) :
  g1 !! "probability1" = g2 !! "probability1" ->
  g1 !! "phaseAmount" = g2 !! "phaseAmount" ->
  fst (inversion_cell g1) = fst (inversion_cell g2)
  /\ (fst (inversion_cell g1) = Ok tt ->
      snd (inversion_cell g1) !! "phase" = snd (inversion_cell g2) !! "phase"
      /\ snd (inversion_cell g1) !! "phaseError"
         = snd (inversion_cell g2) !! "phaseError")
  /\ (forall x : string, x <> "phase" -> x <> "phaseError" ->
      snd (inversion_cell g1) !! x = g1 !! x)
  /\ (fst (inversion_cell g1) = Ok tt ->
      inversion_cell (snd (inversion_cell g1)) = inversion_cell g1)
  /\ (forall (c c' s s' : Z) (e e' a a' : R),
      c = c' -> s = s' -> e = e' -> a = a' ->
      estimatePhase c s = estimatePhase c' s'
      /\ estimationError e a = estimationError e' a').
Proof.
  intros Hp Ha. rewrite !inversion_cell_outcome.
  split; [| split; [| split; [| split]]].
  - unfold inversion_outcome. rewrite <- Hp, <- Ha.
    destruct (g1 !! "probability1") as [[p | d] |]; try reflexivity.
    destruct (phase p) as [ph | e]; try reflexivity.
    cbv zeta. destruct (g1 !! "phaseAmount") as [[a | d] |]; reflexivity.
  - unfold inversion_outcome. rewrite <- Hp, <- Ha.
    destruct (g1 !! "probability1") as [[p | d] |]; try discriminate.
    destruct (phase p) as [ph | e]; try discriminate.
    cbv zeta. destruct (g1 !! "phaseAmount") as [[a | d] |]; try discriminate.
    intros _. cbn [snd]. split.
    + rewrite !(lookup_insert_ne _ "phaseError") by done.
      now rewrite !lookup_insert_eq.
    + now rewrite !lookup_insert_eq.
  - intros x. apply inversion_outcome_frame.
  - apply inversion_outcome_idempotent.
  - intros c c' s s' e e' a a' -> -> -> ->. split; reflexivity.
Qed.

Lemma inversion_cell_stateless_witness :
  fst (inversion_cell fresh_namespace) = fst (inversion_cell used_namespace).
Proof.
  apply (inversion_cell_stateless fresh_namespace used_namespace); reflexivity.
Defined.

(** ** Numerical enclosures

    Polynomial enclosures of [cos] and [sin] from their alternating series,
    used to locate [PI / 2] and the worked example's phase. *)

Lemma INR_nat_lit (n : nat) (z : Z) : Z.of_nat n = z -> INR n = IZR z.
Proof. intros <-. apply INR_IZR_INZ. Qed.

Lemma cos_approx_3 (a : R) :
  cos_approx a 3 = 1 - a ^ 2 / 2 + a ^ 4 / 24 - a ^ 6 / 720.
Proof.
  unfold cos_approx, sum_f_R0, cos_term.
  rewrite (INR_nat_lit (fact (2 * 0)) 1) by reflexivity.
  rewrite (INR_nat_lit (fact (2 * 1)) 2) by reflexivity.
  rewrite (INR_nat_lit (fact (2 * 2)) 24) by reflexivity.
  rewrite (INR_nat_lit (fact (2 * 3)) 720) by reflexivity.
  change (2 * 0)%nat with 0%nat. change (2 * 1)%nat with 2%nat.
  change (2 * 2)%nat with 4%nat. change (2 * 3)%nat with 6%nat.
  field.
Qed.

Lemma cos_approx_4 (a : R) :
  cos_approx a 4 = 1 - a ^ 2 / 2 + a ^ 4 / 24 - a ^ 6 / 720 + a ^ 8 / 40320.
Proof.
  change (cos_approx a 4) with (cos_approx a 3 + cos_term a 4).
  rewrite cos_approx_3. unfold cos_term.
  rewrite (INR_nat_lit (fact (2 * 4)) 40320) by reflexivity.
  change (2 * 4)%nat with 8%nat.
  field.
Qed.

Lemma cos_enclosure (a : R) :
  -2 <= a <= 2 ->
  1 - a ^ 2 / 2 + a ^ 4 / 24 - a ^ 6 / 720 <= cos a
  <= 1 - a ^ 2 / 2 + a ^ 4 / 24 - a ^ 6 / 720 + a ^ 8 / 40320.
Proof.
  intros [Hlo Hhi].
  pose proof (pre_cos_bound a 1 Hlo Hhi) as H.
  change (2 * 1 + 1)%nat with 3%nat in H. change (2 * (1 + 1))%nat with 4%nat in H.
  now rewrite cos_approx_3, cos_approx_4 in H.
Qed.

Lemma cos_double_enclosure (a l u : R) :
  -2 <= a <= 2 -> 0 <= l ->
  l <= 1 - a ^ 2 / 2 + a ^ 4 / 24 - a ^ 6 / 720 ->
  1 - a ^ 2 / 2 + a ^ 4 / 24 - a ^ 6 / 720 + a ^ 8 / 40320 <= u ->
  2 * l * l - 1 <= cos (2 * a) <= 2 * u * u - 1.
Proof.
  intros Ha Hl Hlo Hhi. pose proof (cos_enclosure a Ha) as [H1 H2].
  rewrite cos_2a_cos. split; nra.
Qed.

(** *** Enclosures of [PI / 2] and of [asin 0.018] *)

Lemma cos_157075_pos : 0 < cos (157075 / 100000).
Proof.
  replace (157075 / 100000) with (2 * (157075 / 200000)) by field.
  destruct (cos_double_enclosure (157075 / 200000) (707115 / 1000000) 1)
    as [H _]; lra.
Qed.

Lemma cos_157085_neg : cos (157085 / 100000) < 0.
Proof.
  replace (157085 / 100000) with (2 * (157085 / 200000)) by field.
  destruct (cos_double_enclosure (157085 / 200000) 0 (707099 / 1000000))
    as [_ H]; lra.
Qed.

Lemma PI2_enclosure : 157075 / 100000 < PI / 2 < 157085 / 100000.
Proof.
  split.
  - apply PI2_lower_bound; [lra | apply cos_157075_pos].
  - destruct (Rlt_dec (PI / 2) (157085 / 100000)) as [|Hn]; [assumption |].
    pose proof cos_157085_neg as Hneg.
    pose proof (cos_ge_0 (157085 / 100000)) as Hpos.
    pose proof PI2_RGT_0. lra.
Qed.

Lemma sin_lower (a : R) : 0 <= a <= 4 -> a - a ^ 3 / 6 <= sin a.
Proof.
  intros [Hlo Hhi]. pose proof (pre_sin_bound a 0 Hlo Hhi) as [H _].
  change (2 * 0 + 1)%nat with 1%nat in H.
  unfold sin_approx, sum_f_R0, sin_term in H.
  rewrite (INR_nat_lit (fact (2 * 0 + 1)) 1) in H by reflexivity.
  rewrite (INR_nat_lit (fact (2 * 1 + 1)) 6) in H by reflexivity.
  change (2 * 0 + 1)%nat with 1%nat in H. change (2 * 1 + 1)%nat with 3%nat in H.
  lra.
Qed.

Lemma asin_18_enclosure : 18 / 1000 < asin (18 / 1000) < 1801 / 100000.
Proof.
  pose proof (asin_bound (18 / 1000)) as [Blo Bhi].
  pose proof (sin_asin (18 / 1000) ltac:(lra)) as Hs.
  pose proof PI2_enclosure as [Plo Phi].
  assert (Hpos : 0 < asin (18 / 1000)).
  { apply sin_increasing_0; try lra. rewrite sin_0, Hs. lra. }
  split.
  - pose proof (sin_lt_x _ Hpos). lra.
  - apply sin_increasing_0; try lra.
    rewrite Hs. pose proof (sin_lower (1801 / 100000) ltac:(lra)). lra.
Qed.

(** ** The worked example: 509 ones out of 1000 shots *)

Lemma estimatePhase_509_1000 :
  estimatePhase 509 1000 = Ok (PI / 2 + asin (18 / 1000)).
Proof.
  rewrite estimatePhase_nonzero by lia. rewrite phase_in by lra.
  f_equal. replace (1 - 2 * (509 / 1000)) with (- (18 / 1000)) by lra.
  rewrite acos_asin by lra. rewrite asin_opp. lra.
Qed.

(** C7. With [countOne = 509] and [shots = 1000] the empirical probability
    is [0.509], the estimate is [arccos (1 - 1.018) = arccos (-0.018)],
    within [1e-4] of [1.5888]; the true phase [PI / 2] is within [1e-4] of
    [1.5708]; and the absolute error is within [1e-4] of [0.0180].  The
    same holds against the printed reference values. *)
Theorem worked_example_509_of_1000 :
  truediv (IZR 509) (IZR 1000) = Ok (509 / 1000)
  /\ exists v : R,
      estimatePhase 509 1000 = Ok v
      /\ v = acos (1 - 1018 / 1000)
      /\ v = acos (- (18 / 1000))
      /\ Rabs (v - 15888 / 10000) <= 1 / 10000
      /\ Rabs (PI / 2 - 15708 / 10000) <= 1 / 10000
      /\ Rabs (estimationError v (PI / 2) - 180 / 10000) <= 1 / 10000
      /\ Rabs (v - 15887972989366417 / 10 ^ 16) <= 1 / 10000
      /\ Rabs (estimationError v (PI / 2) - 1800097214174512 / 10 ^ 17)
         <= 1 / 10000.
Proof.
  split; [apply truediv_nonzero; lra |].
  exists (PI / 2 + asin (18 / 1000)).
  pose proof PI2_enclosure as [Plo Phi].
  pose proof asin_18_enclosure as [Alo Ahi].
  assert (Hv : PI / 2 + asin (18 / 1000) = acos (- (18 / 1000))).
  { rewrite acos_asin by lra. rewrite asin_opp. lra. }
  assert (He : estimationError (PI / 2 + asin (18 / 1000)) (PI / 2)
               = asin (18 / 1000)).
  { unfold estimationError, phaseError, Py.abs.
    replace (PI / 2 + asin (18 / 1000) - PI / 2) with (asin (18 / 1000)) by ring.
    apply Rabs_pos_eq. lra. }
  split; [apply estimatePhase_509_1000 |].
  split; [rewrite Hv; f_equal; lra |].
  split; [exact Hv |].
  rewrite He.
  repeat split; apply Rabs_le; lra.
Qed.

(** ** Rounding *)

Lemma round_close (x : R) : Rabs (IZR (round x) - x) <= 1 / 2.
Proof.
  unfold round.
  pose proof (base_fp x) as [Hge Hlt].
  assert (Hx : x = IZR (Int_part x) + frac_part x) by (unfold frac_part; ring).
  destruct (Rlt_dec (frac_part x) (1 / 2)) as [Hlo | Hlo].
  { apply Rabs_le. lra. }
  destruct (Rlt_dec (1 / 2) (frac_part x)) as [Hhi | Hhi].
  { rewrite plus_IZR. apply Rabs_le. lra. }
  destruct (Z.even (Int_part x)).
  - apply Rabs_le. lra.
  - rewrite plus_IZR. apply Rabs_le. lra.
Qed.

Lemma nearest_in_range (x : R) (k N : Z) :
  0 <= x <= IZR N -> Rabs (IZR k - x) <= 1 / 2 -> (0 <= k <= N)%Z.
Proof.
  intros [Hlo Hhi] Hk.
  assert (Hb : - (1 / 2) <= IZR k - x <= 1 / 2).
  { split.
    - pose proof (Rle_abs (- (IZR k - x))) as H. rewrite Rabs_Ropp in H. lra.
    - pose proof (Rle_abs (IZR k - x)). lra. }
  split.
  - assert (-1 < k)%Z; [| lia]. apply lt_IZR. lra.
  - assert (k < N + 1)%Z; [| lia]. apply lt_IZR. rewrite plus_IZR. lra.
Qed.

(** ** How far apart two angles with close cosines can be *)

Lemma cos_gap_ordered (a b : R) :
  0 <= a -> a <= b -> b <= PI -> 1 - cos (b - a) <= cos a - cos b.
Proof.
  intros Ha Hab Hb.
  pose proof PI_RGT_0 as HPI.
  rewrite form2.
  replace (b - a) with (2 * ((b - a) / 2)) at 1 by field.
  rewrite cos_2a_sin.
  replace ((a - b) / 2) with (- ((b - a) / 2)) by field.
  rewrite sin_neg.
  set (h := (b - a) / 2). set (s := (a + b) / 2).
  assert (Hh : 0 <= h <= PI / 2) by (unfold h; lra).
  assert (Hsh : 0 <= sin h) by (apply sin_ge_0; lra).
  assert (Hle : sin h <= sin s).
  { destruct (Rle_dec s (PI / 2)) as [Hs | Hs].
    - apply sin_incr_1; unfold s, h in *; lra.
    - rewrite <- (sin_PI_x s). apply sin_incr_1; unfold s, h in *; lra. }
  nra.
Qed.

Lemma cos_gap (a b : R) :
  0 <= a <= PI -> 0 <= b <= PI ->
  1 - cos (Rabs (a - b)) <= Rabs (cos a - cos b).
Proof.
  intros [Ha0 Ha1] [Hb0 Hb1].
  destruct (Rle_dec a b) as [Hab | Hab].
  - rewrite Rabs_minus_sym. rewrite (Rabs_pos_eq (b - a)) by lra.
    pose proof (cos_gap_ordered a b Ha0 Hab Hb1).
    pose proof (Rle_abs (cos a - cos b)). lra.
  - rewrite (Rabs_pos_eq (a - b)) by lra.
    pose proof (cos_gap_ordered b a Hb0 ltac:(lra) Ha1).
    pose proof (Rle_abs (cos b - cos a)) as H1.
    rewrite (Rabs_minus_sym (cos b)) in H1. lra.
Qed.

Lemma small_gap_small_angle (d eps : R) :
  0 <= d <= PI -> 0 < eps <= PI -> 1 - cos d < 1 - cos eps -> d < eps.
Proof.
  intros [Hd0 Hd1] [He0 He1] Hlt.
  apply (cos_decreasing_0 eps d); lra.
Qed.

(** ** The noiseless round trip *)

(** A tally within half a count of the predicted one yields an estimate
    whose cosine is within [1/shots] of the true one. *)
Lemma round_trip_gap (theta : R) (k N : Z) :
  0 <= theta <= PI -> (1 <= N)%Z ->
  Rabs (IZR k - predictedProbabilityOfOne theta * IZR N) <= 1 / 2 ->
  exists v : R,
    estimatePhase k N = Ok v
    /\ 0 <= Rabs (v - theta) <= PI
    /\ 1 - cos (Rabs (v - theta)) <= 1 / IZR N.
Proof.
  intros Ht HN Hk.
  assert (HNr : 1 <= IZR N) by now apply IZR_le.
  pose proof (predictedProbabilityOfOne_cos theta) as Hp.
  pose proof (COS_bound theta) as [Hc0 Hc1].
  set (p := predictedProbabilityOfOne theta) in *.
  assert (Hp01 : 0 <= p <= 1) by lra.
  assert (Hrange : (0 <= k <= N)%Z).
  { apply (nearest_in_range (p * IZR N)); [nra | assumption]. }
  pose proof (ratio_in_unit k N HN (proj1 Hrange) (proj2 Hrange)) as Hq.
  set (v := acos (1 - 2 * (IZR k / IZR N))).
  assert (Hv : estimatePhase k N = Ok v).
  { rewrite estimatePhase_nonzero by lia. now apply phase_in. }
  assert (Hcos : cos v = 1 - 2 * (IZR k / IZR N)) by (apply cos_acos; lra).
  pose proof (acos_bound (1 - 2 * (IZR k / IZR N))) as Hvb. fold v in Hvb.
  exists v. split; [exact Hv |].
  assert (Habs : 0 <= Rabs (v - theta) <= PI).
  { split; [apply Rabs_pos |]. apply Rabs_le. lra. }
  split; [exact Habs |].
  eapply Rle_trans; [apply cos_gap; lra |].
  rewrite Hcos.
  replace (cos theta) with (1 - 2 * p) by lra.
  replace (1 - 2 * (IZR k / IZR N) - (1 - 2 * p))
    with (- (2 / IZR N) * (IZR k - p * IZR N)) by (field; lra).
  rewrite Rabs_mult, Rabs_Ropp.
  assert (H2N : 0 < 2 / IZR N) by (apply Rdiv_lt_0_compat; lra).
  rewrite (Rabs_pos_eq (2 / IZR N)) by lra.
  replace (1 / IZR N) with (2 / IZR N * (1 / 2)) by (field; lra).
  apply Rmult_le_compat_l; [lra | assumption].
Qed.

Lemma inverse_shots_small (delta : R) :
  0 < delta ->
  exists N0 : Z, (1 <= N0)%Z /\ forall N : Z, (N0 <= N)%Z -> 1 / IZR N < delta.
Proof.
  intros Hd.
  destruct (archimed (1 / delta)) as [Hup _].
  assert (Hinv : 0 < 1 / delta) by (apply Rdiv_lt_0_compat; lra).
  exists (up (1 / delta)). split.
  - assert (0 < up (1 / delta))%Z; [| lia]. apply lt_IZR. lra.
  - intros N HN. apply IZR_le in HN.
    assert (HNd : 1 / delta < IZR N) by lra.
    assert (HNpos : 0 < IZR N) by lra.
    apply (Rmult_lt_reg_r (IZR N)); [assumption |].
    replace (1 / IZR N * IZR N) with 1 by (field; lra).
    apply (Rmult_lt_reg_r (/ delta)); [apply Rinv_0_lt_compat; assumption |].
    replace (delta * IZR N * / delta) with (IZR N) by (field; lra).
    lra.
Qed.

Lemma one_minus_cos_pos (eps : R) : 0 < eps <= PI -> 0 < 1 - cos eps.
Proof.
  intros [He0 He1]. pose proof PI_RGT_0 as HPI.
  pose proof (cos_decreasing_1 0 eps) as H. rewrite cos_0 in H. lra.
Qed.

Lemma one_minus_cos_5_100 : 1 / 10000 < 1 - cos (5 / 100).
Proof.
  pose proof (cos_enclosure (5 / 100) ltac:(lra)) as [_ Hu]. lra.
Qed.

(** C5. For every [theta] in [[0, PI]], with [countOne] the rounding of
    [predictedProbabilityOfOne theta * N], the value of
    [estimatePhase countOne N] converges to [theta] as [N] grows, and at
    [N = 10000] it is within [0.05] rad of [theta]. *)
Theorem noiseless_round_trip (theta : R) :
  0 <= theta <= PI ->
  (forall eps : R, 0 < eps ->
     exists N0 : Z, (1 <= N0)%Z /\
       forall N : Z, (N0 <= N)%Z ->
         exists v : R,
           estimatePhase (round (predictedProbabilityOfOne theta * IZR N)) N
           = Ok v
           /\ Rabs (v - theta) < eps)
  /\ (exists v : R,
        estimatePhase (round (predictedProbabilityOfOne theta * 10000)) 10000
        = Ok v
        /\ Rabs (v - theta) <= 5 / 100).
Proof.
  intros Ht. pose proof PI_RGT_0 as HPI. split.
  - intros eps Heps.
    destruct (Rlt_dec PI eps) as [Hbig | Hsmall].
    + exists 1%Z. split; [lia |]. intros N HN.
      destruct (round_trip_gap theta _ N Ht HN (round_close _))
        as (v & Hv & Hd & _).
      exists v. split; [exact Hv | lra].
    + assert (He : 0 < eps <= PI) by lra.
      destruct (inverse_shots_small _ (one_minus_cos_pos eps He))
        as (N0 & HN0 & Hsmall0).
      exists N0. split; [exact HN0 |]. intros N HN.
      destruct (round_trip_gap theta _ N Ht ltac:(lia) (round_close _))
        as (v & Hv & Hd & Hgap).
      exists v. split; [exact Hv |].
      apply small_gap_small_angle; try assumption.
      specialize (Hsmall0 N HN). lra.
  - destruct (round_trip_gap theta _ 10000 Ht ltac:(lia) (round_close _))
      as (v & Hv & Hd & Hgap).
    exists v. split; [exact Hv |].
    left. apply small_gap_small_angle; try assumption.
    + pose proof PI2_1. lra.
    + pose proof one_minus_cos_5_100. lra.
Qed.

Lemma noiseless_round_trip_witness :
  exists v : R,
    estimatePhase (round (predictedProbabilityOfOne 0 * 10000)) 10000 = Ok v
    /\ Rabs (v - 0) <= 5 / 100.
Proof.
  apply (noiseless_round_trip 0). pose proof PI_RGT_0. lra.
Defined.

(** * Further properties of the notebook's cells *)

(** ** The inversion formula and the probability model *)

Lemma phase_of_predicted (theta : R) :
  phase (predictedProbabilityOfOne theta) = Ok (acos (cos theta)).
Proof.
  pose proof (COS_bound theta) as [Hc0 Hc1].
  rewrite phase_in by (rewrite predictedProbabilityOfOne_cos; lra).
  f_equal. f_equal. rewrite predictedProbabilityOfOne_cos. field.
Qed.

(** X5. On [[0, PI]] the inversion cell undoes the model exactly: the
    phase computed from the predicted probability of [theta] is [theta]. *)
Theorem phase_inverts_model (theta : R) :
  0 <= theta <= PI -> phase (predictedProbabilityOfOne theta) = Ok theta.
Proof.
  intros Ht. rewrite phase_of_predicted. f_equal. now apply acos_cos.
Qed.

Lemma phase_inverts_model_witness : phase (predictedProbabilityOfOne 0) = Ok 0.
Proof. apply (phase_inverts_model 0). pose proof PI_RGT_0. lra. Defined.

(** X6. Whenever the inversion cell returns a phase for a probability,
    the model maps that phase back to the same probability. *)
Theorem model_inverts_phase (p v : R) :
  phase p = Ok v -> predictedProbabilityOfOne v = p.
Proof.
  intros Hv. apply phase_Ok_inv in Hv as [Hp ->].
  rewrite predictedProbabilityOfOne_cos, cos_acos by lra. field.
Qed.

Lemma model_inverts_phase_witness : predictedProbabilityOfOne 0 = 0.
Proof. apply (model_inverts_phase 0 0). apply phase_zero. Defined.

(** X7. A true phase in the upper half [[PI, 2 PI]] is folded back: from
    its predicted probability the inversion cell returns [2 PI - theta],
    never [theta] itself unless [theta = PI]. *)
Theorem phase_folds_upper_half (theta : R) :
  PI <= theta <= 2 * PI ->
  phase (predictedProbabilityOfOne theta) = Ok (2 * PI - theta)
  /\ (phase (predictedProbabilityOfOne theta) = Ok theta -> theta = PI).
Proof.
  intros Ht.
  assert (Hf : phase (predictedProbabilityOfOne theta) = Ok (2 * PI - theta)).
  { rewrite phase_of_predicted. f_equal.
    replace (cos theta) with (cos (2 * PI - theta)).
    - apply acos_cos. lra.
    - replace (2 * PI - theta) with (- theta + 2 * INR 1 * PI) by (simpl; ring).
      now rewrite cos_period, cos_neg. }
  split; [exact Hf |].
  rewrite Hf. intros [= H]. lra.
Qed.

Lemma phase_folds_upper_half_witness :
  phase (predictedProbabilityOfOne (3 * PI / 2)) = Ok (2 * PI - 3 * PI / 2).
Proof.
  apply (phase_folds_upper_half (3 * PI / 2)). pose proof PI_RGT_0. lra.
Defined.

(** ** How the estimate depends on the tally *)

Lemma estimatePhase_acos (countOne shots : Z) :
  (1 <= shots)%Z -> (0 <= countOne)%Z -> (countOne <= shots)%Z ->
  estimatePhase countOne shots
  = Ok (acos (1 - 2 * (IZR countOne / IZR shots)))
  /\ -1 <= 1 - 2 * (IZR countOne / IZR shots) <= 1.
Proof.
  intros Hs H0 Hle.
  pose proof (ratio_in_unit countOne shots Hs H0 Hle) as Hp.
  split; [| lra].
  rewrite estimatePhase_nonzero by lia. now apply phase_in.
Qed.

(** X9. Exchanging the roles of the two outcomes reflects the estimate
    about [PI / 2]: the tally with [shots - countOne] ones yields [PI]
    minus the estimate of the tally with [countOne] ones. *)
Theorem estimatePhase_complement (countOne shots : Z) :
  (1 <= shots)%Z -> (0 <= countOne)%Z -> (countOne <= shots)%Z ->
  exists v : R,
    estimatePhase countOne shots = Ok v
    /\ estimatePhase (shots - countOne) shots = Ok (PI - v).
Proof.
  intros Hs H0 Hle.
  destruct (estimatePhase_acos countOne shots) as [E1 B1]; try lia.
  destruct (estimatePhase_acos (shots - countOne) shots) as [E2 B2]; try lia.
  eexists. split; [exact E1 |].
  rewrite E2. f_equal. rewrite <- acos_opp. f_equal.
  rewrite minus_IZR. apply IZR_le in Hs. field. lra.
Qed.

Lemma estimatePhase_complement_witness :
  exists v : R,
    estimatePhase 509 1000 = Ok v
    /\ estimatePhase (1000 - 509) 1000 = Ok (PI - v).
Proof. apply (estimatePhase_complement 509 1000); lia. Defined.

(** X10. Only the ratio of the tally matters: multiplying both
    [countOne] and [shots] by the same non-zero integer, negative ones
    included, changes neither the estimate nor the exception raised. *)
Theorem estimatePhase_scale_invariant (k countOne shots : Z) :
  k <> 0%Z ->
  estimatePhase (k * countOne) (k * shots) = estimatePhase countOne shots.
Proof.
  intros Hk.
  assert (Hkr : IZR k <> 0) by (intros H; apply eq_IZR_R0 in H; contradiction).
  destruct (Z.eq_dec shots 0%Z) as [-> | Hs].
  - rewrite Z.mul_0_r. now rewrite !estimatePhase_zero_shots.
  - assert (Hsr : IZR shots <> 0) by (intros H; apply eq_IZR_R0 in H; contradiction).
    rewrite !estimatePhase_nonzero by lia.
    f_equal. rewrite !mult_IZR. field. split; assumption.
Qed.

Lemma estimatePhase_scale_invariant_witness :
  estimatePhase (-1 * 3) (-1 * 5) = estimatePhase 3 5.
Proof. apply (estimatePhase_scale_invariant (-1) 3 5). lia. Defined.

Lemma estimatePhase_no_ones (shots : Z) :
  shots <> 0%Z -> estimatePhase 0 shots = Ok 0.
Proof.
  intros Hs. rewrite estimatePhase_nonzero by assumption.
  replace (IZR 0 / IZR shots) with 0; [apply phase_zero |].
  unfold Rdiv. ring.
Qed.

(** X11. For a returned estimate and a true phase in [[0, PI]] the
    reported error lies in [[0, PI]], and it is zero exactly when the
    estimate is the true phase. *)
Theorem estimationError_bounded (countOne shots : Z) (v actual : R) :
  estimatePhase countOne shots = Ok v -> 0 <= actual <= PI ->
  0 <= estimationError v actual <= PI
  /\ (estimationError v actual = 0 <-> v = actual).
Proof.
  intros Hv Ha.
  assert (Hvb : 0 <= v <= PI).
  { destruct (Z.eq_dec shots 0%Z) as [-> | Hs].
    - rewrite estimatePhase_zero_shots in Hv. discriminate.
    - rewrite estimatePhase_nonzero in Hv by assumption.
      apply phase_Ok_inv in Hv as [_ ->]. apply acos_bound. }
  unfold estimationError, phaseError, Py.abs.
  split; [split; [apply Rabs_pos | apply Rabs_le; lra] |].
  split.
  - intros H0. destruct (Req_dec (v - actual) 0) as [|Hne]; [lra |].
    apply Rabs_no_R0 in Hne. contradiction.
  - intros ->. replace (actual - actual) with 0 by ring. apply Rabs_R0.
Qed.

Lemma estimationError_bounded_witness :
  0 <= estimationError 0 (PI / 2) <= PI
  /\ (estimationError 0 (PI / 2) = 0 <-> 0 = PI / 2).
Proof.
  apply (estimationError_bounded 0 1000 0 (PI / 2)).
  - apply estimatePhase_no_ones. lia.
  - pose proof PI_RGT_0. lra.
Defined.

(** X12. Sensitivity of the estimate: two well-formed tallies over the
    same shots whose counts differ by [d] give cosines [2 d / shots]
    apart, and the two estimates [v1], [v2] satisfy
    [1 - cos |v1 - v2| <= 2 d / shots]. *)
Theorem estimatePhase_sensitivity (c1 c2 shots : Z) :
  (1 <= shots)%Z -> (0 <= c1 <= shots)%Z -> (0 <= c2 <= shots)%Z ->
  exists v1 v2 : R,
    estimatePhase c1 shots = Ok v1
    /\ estimatePhase c2 shots = Ok v2
    /\ Rabs (cos v1 - cos v2) = 2 * IZR (Z.abs (c1 - c2)) / IZR shots
    /\ 1 - cos (Rabs (v1 - v2)) <= 2 * IZR (Z.abs (c1 - c2)) / IZR shots.
Proof.
  intros Hs [H1 H1'] [H2 H2'].
  destruct (estimatePhase_acos c1 shots) as [E1 B1]; try lia.
  destruct (estimatePhase_acos c2 shots) as [E2 B2]; try lia.
  eexists _, _. split; [exact E1 | split; [exact E2 |]].
  assert (Hsr : 1 <= IZR shots) by now apply IZR_le.
  assert (Hcos : Rabs (cos (acos (1 - 2 * (IZR c1 / IZR shots)))
                       - cos (acos (1 - 2 * (IZR c2 / IZR shots))))
                 = 2 * IZR (Z.abs (c1 - c2)) / IZR shots).
  { rewrite !cos_acos by lra. rewrite abs_IZR, minus_IZR.
    replace (1 - 2 * (IZR c1 / IZR shots) - (1 - 2 * (IZR c2 / IZR shots)))
      with (- (2 / IZR shots) * (IZR c1 - IZR c2)) by (field; lra).
    rewrite Rabs_mult, Rabs_Ropp.
    assert (H2s : 0 < 2 / IZR shots) by (apply Rdiv_lt_0_compat; lra).
    rewrite (Rabs_pos_eq (2 / IZR shots)) by lra. field. lra. }
  split; [exact Hcos |].
  rewrite <- Hcos. apply cos_gap; apply acos_bound.
Qed.

Lemma estimatePhase_sensitivity_witness :
  exists v1 v2 : R,
    estimatePhase 509 1000 = Ok v1
    /\ estimatePhase 500 1000 = Ok v2
    /\ Rabs (cos v1 - cos v2) = 2 * IZR (Z.abs (509 - 500)) / IZR 1000
    /\ 1 - cos (Rabs (v1 - v2)) <= 2 * IZR (Z.abs (509 - 500)) / IZR 1000.
Proof. apply (estimatePhase_sensitivity 509 500 1000); lia. Defined.

(** ** The tally cell *)

Lemma probability_count (key : string) (counts : gmap string Z) (n : Z) :
  n <> 0%Z ->
  probability key counts (IZR n)
  = Ok (IZR (outcome_count counts key) / IZR n).
Proof.
  intros Hn. unfold outcome_count.
  destruct (counts !! key) as [c |] eqn:Hk; simpl.
  - rewrite (probability_present _ _ _ _ Hk). apply truediv_nonzero.
    intros H. apply eq_IZR_R0 in H. contradiction.
  - rewrite (probability_absent _ _ _ Hk). f_equal. unfold Rdiv. ring.
Qed.

Lemma probability_zero_shots (key : string) (counts : gmap string Z) :
  probability key counts (IZR 0)
  = if decide (is_Some (counts !! key)) then Raise ZeroDivisionError else Ok 0.
Proof.
  destruct (counts !! key) as [c |] eqn:Hk.
  - rewrite (probability_present _ _ _ _ Hk), truediv_zero.
    destruct (decide (is_Some (Some c))) as [|Hn]; [reflexivity |].
    exfalso. apply Hn. eauto.
  - rewrite (probability_absent _ _ _ Hk).
    destruct (decide (is_Some (@None Z))) as [[v Hv] |]; [discriminate | reflexivity].
Qed.

(** X1. When the counts of ['0'] and ['1'] (a missing key counting as
    zero) add up to a non-zero [shots], both probabilities are computed
    and they sum to one. *)
Theorem tally_probabilities_sum_to_one (counts : gmap string Z) (n : Z) :
  n <> 0%Z ->
  (outcome_count counts "0" + outcome_count counts "1")%Z = n ->
  exists p0 p1 : R,
    probability0 counts (IZR n) = Ok p0
    /\ probability1 counts (IZR n) = Ok p1
    /\ p0 + p1 = 1.
Proof.
  intros Hn Hsum. unfold probability0, probability1.
  rewrite !probability_count by assumption.
  eexists _, _. split; [reflexivity | split; [reflexivity |]].
  assert (Hnr : IZR n <> 0) by (intros H; apply eq_IZR_R0 in H; contradiction).
  rewrite <- Hsum at 1 2. rewrite <- Hsum in Hnr.
  rewrite plus_IZR in *. field. exact Hnr.
Qed.

Lemma tally_probabilities_sum_to_one_witness :
  exists p0 p1 : R,
    probability0 (<["0" := 491%Z]> {["1" := 509%Z]}) (IZR 1000) = Ok p0
    /\ probability1 (<["0" := 491%Z]> {["1" := 509%Z]}) (IZR 1000) = Ok p1
    /\ p0 + p1 = 1.
Proof.
  apply (tally_probabilities_sum_to_one
           (<["0" := 491%Z]> {["1" := 509%Z]}) 1000); [lia | reflexivity].
Defined.

(** X3. The tally cell raises [ZeroDivisionError] exactly when [shots]
    is zero and the counts hold ['0'] or ['1']. *)
Theorem tally_cell_failure (n : Z) (returned : gmap string Z) (g : globals) :
  fst (tally_cell n returned g) = Raise ZeroDivisionError
  <-> n = 0%Z /\ (is_Some (returned !! "0") \/ is_Some (returned !! "1")).
Proof.
  rewrite tally_cell_outcome. cbv zeta.
  destruct (Z.eq_dec n 0%Z) as [-> | Hn].
  - unfold probability0, probability1. rewrite !probability_zero_shots.
    destruct (decide (is_Some (returned !! "0"))) as [H0 | H0];
      [| destruct (decide (is_Some (returned !! "1"))) as [H1 | H1]];
      cbn [fst]; split; intros H;
      try reflexivity; try discriminate; try tauto.
  - unfold probability0, probability1. rewrite !probability_count by assumption.
    cbn [fst]. split; intros H; try discriminate; try tauto.
Qed.

(** X4. Whatever its outcome, the tally cell leaves every variable
    alone except the eight names its statements assign ([simulator],
    [compiled_circuit], [shots], [job], [result], [counts],
    [probability0], [probability1]): an earlier [phase], [phaseError] or
    [phaseAmount] stays in the namespace as it was. *)
Theorem tally_cell_frame (n : Z) (returned : gmap string Z) (g : globals)
    (x : string) :
  x <> "simulator" -> x <> "compiled_circuit" -> x <> "shots" ->
  x <> "job" -> x <> "result" -> x <> "counts" ->
  x <> "probability0" -> x <> "probability1" ->
  snd (tally_cell n returned g) !! x = g !! x.
Proof.
  intros _ _ Hs _ _ Hc H0 H1. rewrite tally_cell_outcome. cbv zeta.
  destruct (probability0 returned (IZR n)) as [p0 | e0];
    [destruct (probability1 returned (IZR n)) as [p1 | e1] |];
    cbn [snd]; repeat (rewrite lookup_insert_ne by congruence); reflexivity.
Qed.

Lemma tally_cell_frame_witness :
  snd (tally_cell 1000 {["1" := 1000%Z]} used_namespace) !! "phase"
  = used_namespace !! "phase".
Proof.
  apply (tally_cell_frame 1000 {["1" := 1000%Z]} used_namespace "phase");
    discriminate.
Defined.

(** ** The cells in sequence *)

(** X2. One run on a tally with [shots >= 1] and a count of ones between
    [0] and [shots] completes, and leaves in the namespace the two
    probabilities, the phase [arccos (1 - 2 * ones / shots)], its distance
    to the true phase and the true phase itself. *)
Theorem estimation_run_result (theta : R) (n : Z) (returned : gmap string Z)
    (g : globals) :
  (1 <= n)%Z ->
  (0 <= outcome_count returned "1" <= n)%Z ->
  fst (estimation_run theta n returned g) = Ok tt
  /\ snd (estimation_run theta n returned g) !! "probability0"
     = Some (Num (IZR (outcome_count returned "0") / IZR n))
  /\ snd (estimation_run theta n returned g) !! "probability1"
     = Some (Num (IZR (outcome_count returned "1") / IZR n))
  /\ snd (estimation_run theta n returned g) !! "phase"
     = Some (Num (acos (1 - 2 * (IZR (outcome_count returned "1") / IZR n))))
  /\ snd (estimation_run theta n returned g) !! "phaseError"
     = Some (Num (Rabs
         (acos (1 - 2 * (IZR (outcome_count returned "1") / IZR n)) - theta)))
  /\ snd (estimation_run theta n returned g) !! "phaseAmount"
     = Some (Num theta).
Proof.
  intros Hn [H0 H1].
  pose proof (ratio_in_unit _ n Hn H0 H1) as Hp.
  rewrite estimation_run_outcome, tally_cell_outcome. cbv zeta.
  unfold probability0, probability1.
  rewrite !probability_count by lia.
  rewrite inversion_cell_outcome. unfold inversion_outcome.
  rewrite lookup_insert_eq. rewrite (phase_in _ Hp). cbv zeta.
  repeat (rewrite lookup_insert_ne by done). rewrite lookup_insert_eq.
  cbn [fst snd]. unfold phaseError, Py.abs.
  split; [reflexivity |].
  repeat split.
  - repeat (rewrite lookup_insert_ne by done). apply lookup_insert_eq.
  - repeat (rewrite lookup_insert_ne by done). apply lookup_insert_eq.
  - repeat (rewrite lookup_insert_ne by done). apply lookup_insert_eq.
  - apply lookup_insert_eq.
  - repeat (rewrite lookup_insert_ne by done). apply lookup_insert_eq.
Qed.

Lemma estimation_run_result_witness :
  fst (estimation_run (PI / 2) 1000 (<["0" := 491%Z]> {["1" := 509%Z]}) ∅)
  = Ok tt.
Proof.
  apply (estimation_run_result (PI / 2) 1000
           (<["0" := 491%Z]> {["1" := 509%Z]}) ∅); [lia |].
  vm_compute. split; discriminate.
Defined.

(** X14. A run with [shots = 0] on counts that hold ['0'] or ['1'] stops
    in the tally cell with [ZeroDivisionError]: the true phase has been
    assigned, but [phase] and [phaseError] are what they were before. *)
Theorem estimation_run_zero_shots (theta : R) (returned : gmap string Z)
    (g : globals) :
  is_Some (returned !! "0") \/ is_Some (returned !! "1") ->
  fst (estimation_run theta 0 returned g) = Raise ZeroDivisionError
  /\ snd (estimation_run theta 0 returned g) !! "phaseAmount"
     = Some (Num theta)
  /\ snd (estimation_run theta 0 returned g) !! "phase" = g !! "phase"
  /\ snd (estimation_run theta 0 returned g) !! "phaseError"
     = g !! "phaseError".
Proof.
  intros Hkey.
  rewrite estimation_run_outcome, tally_cell_outcome. cbv zeta.
  unfold probability0, probability1. rewrite !probability_zero_shots.
  destruct (decide (is_Some (returned !! "0"))) as [H0 | H0].
  - cbn [fst snd]. split; [reflexivity |].
    repeat split; repeat (rewrite lookup_insert_ne by done);
      try reflexivity; apply lookup_insert_eq.
  - destruct (decide (is_Some (returned !! "1"))) as [H1 | H1]; [| tauto].
    cbn [fst snd]. split; [reflexivity |].
    repeat split; repeat (rewrite lookup_insert_ne by done);
      try reflexivity; apply lookup_insert_eq.
Qed.

Lemma estimation_run_zero_shots_witness :
  fst (estimation_run (PI / 2) 0 {["1" := 5%Z]} ∅) = Raise ZeroDivisionError.
Proof.
  apply (estimation_run_zero_shots (PI / 2) {["1" := 5%Z]} ∅).
  right. exists 5%Z. reflexivity.
Defined.



(** ** The probability model of the markdown cells *)

Lemma predictedProbabilityOfZero_cos (theta : R) :
  predictedProbabilityOfZero theta = (1 + cos theta) / 2.
Proof.
  unfold predictedProbabilityOfZero. rewrite pow2_abs.
  replace theta with (2 * (theta / 2)) at 2 by field.
  rewrite cos_2a_cos. field.
Qed.

(** X15. The two predicted probabilities are complementary for every
    [theta]: [P[|0>] = (1 + cos theta) / 2], it lies in [[0, 1]], and
    [P[|0>] + P[|1>] = 1]. *)
Theorem predicted_probabilities_sum_to_one (theta : R) :
  predictedProbabilityOfZero theta = (1 + cos theta) / 2
  /\ 0 <= predictedProbabilityOfZero theta <= 1
  /\ predictedProbabilityOfZero theta + predictedProbabilityOfOne theta = 1.
Proof.
  rewrite predictedProbabilityOfZero_cos, predictedProbabilityOfOne_cos.
  pose proof (COS_bound theta) as [Hlo Hhi].
  split; [reflexivity |]. split; [lra | field].
Qed.

(** X16. The squared moduli of the amplitudes [(1 + e^(i theta)) / 2] and
    [(1 - e^(i theta)) / 2] are the two trigonometric forms
    [|cos(theta/2)|^2] and [|sin(theta/2)|^2] the notebook derives. *)
Theorem amplitudes_give_predicted_probabilities (theta : R) :
  modulus_sqr (amplitude0 theta) = predictedProbabilityOfZero theta
  /\ modulus_sqr (amplitude1 theta) = predictedProbabilityOfOne theta.
Proof.
  rewrite predictedProbabilityOfZero_cos, predictedProbabilityOfOne_cos.
  unfold modulus_sqr, amplitude0, amplitude1, expi. cbn [fst snd].
  pose proof (sin2_cos2 theta) as H. unfold Rsqr in H.
  split; nra.
Qed.

(** X17. The model cannot tell [theta] from [- theta] or from
    [theta + 2 k PI]: the predicted probability is even and periodic. *)
Theorem predictedProbabilityOfOne_even_periodic (theta : R) (k : nat) :
  predictedProbabilityOfOne (- theta) = predictedProbabilityOfOne theta
  /\ predictedProbabilityOfOne (theta + 2 * INR k * PI)
     = predictedProbabilityOfOne theta.
Proof.
  rewrite !predictedProbabilityOfOne_cos. rewrite cos_neg, cos_period.
  split; reflexivity.
Qed.

(** ** The Grover operator builder *)

Lemma range_valid (n q : Z) : q ∈ Grover.range n <-> Grover.valid_index n q.
Proof.
  unfold Grover.range, Grover.valid_index. rewrite elem_of_seqZ. lia.
Qed.

Lemma range_snoc (n : Z) :
  (1 <= n)%Z -> Grover.range (n - 1) ++ [(n - 1)%Z] = Grover.range n.
Proof.
  intros Hn. unfold Grover.range.
  replace n with ((n - 1) + 1)%Z at 3 by lia.
  rewrite seqZ_app by lia. f_equal.
Qed.

(** X18. For [num_qubits >= 1] every qubit index that
    [custom_grover_operator] passes to a builder call ([append], [h],
    [x], [mcx]) is an index of the [num_qubits]-qubit circuit. *)
Theorem custom_grover_operator_indices {I : Type} (oracle : I)
    (num_qubits : Z) :
  (1 <= num_qubits)%Z ->
  Forall (fun c => Forall (Grover.valid_index num_qubits) (Grover.call_indices c))
         (Grover.custom_grover_operator oracle num_qubits).
Proof.
  unfold Grover.custom_grover_operator. intros Hn.
  assert (Hr : Forall (Grover.valid_index num_qubits) (Grover.range num_qubits)).
  { apply Forall_forall. intros q Hq. now apply range_valid. }
  assert (Hl : Forall (Grover.valid_index num_qubits) [(num_qubits - 1)%Z]).
  { apply Forall_cons. split; [unfold Grover.valid_index; lia | constructor]. }
  repeat (apply Forall_cons; split); try exact Hr; try exact Hl;
    try constructor; try lia.
  cbn [Grover.call_indices]. rewrite range_snoc by assumption. exact Hr.
Qed.

Lemma custom_grover_operator_indices_witness :
  Forall (fun c => Forall (Grover.valid_index 3) (Grover.call_indices c))
         (Grover.custom_grover_operator tt 3).
Proof. apply (custom_grover_operator_indices tt 3). lia. Defined.

(** X19. For [num_qubits >= 1] the multi-controlled X acts on every
    qubit of the circuit exactly once: its controls followed by its
    target are [0, ..., num_qubits - 1], so the target is not among the
    controls, and with one qubit there is no control at all. *)
Theorem custom_grover_operator_mcx {I : Type} (oracle : I) (num_qubits : Z) :
  (1 <= num_qubits)%Z ->
  exists controls target,
    (Grover.custom_grover_operator oracle num_qubits) !! 4%nat
    = Some (Grover.MCX controls target)
    /\ controls ++ [target] = Grover.range num_qubits
    /\ NoDup (controls ++ [target])
    /\ (target ∉ controls)
    /\ length controls = Z.to_nat (num_qubits - 1)
    /\ (num_qubits = 1%Z -> controls = []).
Proof.
  intros Hn. exists (Grover.range (num_qubits - 1)), (num_qubits - 1)%Z.
  split; [reflexivity |].
  split; [now apply range_snoc |].
  split; [rewrite range_snoc by assumption; apply NoDup_seqZ |].
  split; [rewrite range_valid; unfold Grover.valid_index; lia |].
  split; [apply length_seqZ |].
  intros ->. reflexivity.
Qed.

Lemma custom_grover_operator_mcx_witness :
  exists controls target,
    (Grover.custom_grover_operator tt 3) !! 4%nat
    = Some (Grover.MCX controls target)
    /\ controls ++ [target] = Grover.range 3
    /\ NoDup (controls ++ [target])
    /\ (target ∉ controls)
    /\ length controls = Z.to_nat (3 - 1)
    /\ (3%Z = 1%Z -> controls = []).
Proof. apply (custom_grover_operator_mcx tt 3). lia. Defined.
